(** * minitorch/datasets.py: synthetic 2D datasets

    A shallow embedding of [make_pts], the [Graph] record, the six dataset
    generators and the [datasets] dictionary, followed by the properties
    the specification states about them.

    Python values are modelled as follows.
    - [int] is [Z]; [//] is [Z.div] (floor division).
    - [float] is an IEEE 754 binary64 number, [PrimFloat.float]; the
      comparisons and the arithmetic of the source are the primitive ones.
    - [random.random()] reads the process-wide generator: the generator is
      an explicit state [rng], a tape of draws and a cursor.
    - A raised exception is the [Raise] result of the monad [M].
    - [math.cos], [math.sin] and the C [pow] behind [float ** int] come
      from the platform's libm and are the fields of the class [Libm]. *)

From Stdlib Require Import ZArith PrimFloat SpecFloat FloatOps.
From stdpp Require Import base gmap strings list.

Set Warnings "-inexact-float".
Local Open Scope Z_scope.

(** ** Exceptions, results and the generator state *)

Inductive exn : Type :=
  | OverflowError
  | ZeroDivisionError
  | KeyError (key : string).

Inductive result (A : Type) : Type :=
  | Ok (a : A)
  | Raise (e : exn).
Arguments Ok {A} a.
Arguments Raise {A} e.

(** The state of the [random] module: [tape s k] is the value of the
    [k]-th call of [random.random()] and [cursor s] counts the calls made
    so far. *)
Record rng : Type := mkRng { tape : nat → float; cursor : nat }.

(** The state after [k] further draws. *)
Definition advance (k : nat) (s : rng) : rng :=
  mkRng (tape s) (k + cursor s).

(** Computations that read the generator and may raise. *)
Definition M (A : Type) : Type := rng → result A * rng.

#[global] Instance M_ret : MRet M := λ A a s, (Ok a, s).

#[global] Instance M_bind : MBind M := λ A B f m s,
  match m s with
  | (Ok a, s') => f a s'
  | (Raise e, s') => (Raise e, s')
  end.

Definition raise {A : Type} (e : exn) : M A := λ s, (Raise e, s).

(** [random.random()]: the next draw, and the cursor moves on. *)
Definition random_random : M float :=
  λ s, (Ok (tape s (cursor s)), mkRng (tape s) (S (cursor s))).

(** ** Floats and integers *)

(** The libm functions the module calls. [float_pow] is the C [pow] that
    CPython calls for [float ** int] after converting the exponent. The
    Python wrappers raise only at infinite arguments or on overflow, which
    the generators cannot reach: the draws of [random.random()] lie in
    [0, 1) and the spiral parameter is bounded by 50 in absolute value. *)
Class Libm : Type := {
  math_cos : float → float;
  math_sin : float → float;
  float_pow : float → float → float
}.

(** The least positive integer that rounds (to nearest, ties to even) to
    2^1024, hence does not convert to a finite binary64. *)
Definition DBL_OVERFLOW : Z := 2 ^ 1024 - 2 ^ 970.

(** The binary64 nearest to an integer (ties to even). *)
Definition float_of_Z (z : Z) : float :=
  SF2Prim (binary_normalize prec emax z 0 false).

(** [float(z)] and the implicit conversion of an [int] operand:
    correctly rounded, OverflowError when the rounded value is not
    finite. *)
Definition float_of_int (z : Z) : M float :=
  if Z.abs z <? DBL_OVERFLOW
  then mret (float_of_Z z)
  else raise OverflowError.

(** [a / b] for a float [a] and an int [b]: [b] is converted, and a zero
    divisor raises ZeroDivisionError. A nonzero int never converts to
    zero, so the test is made on the int. *)
Definition float_truediv_int (a : float) (b : Z) : M float :=
  b' ← float_of_int b;
  if b =? 0 then raise ZeroDivisionError else mret (a / b')%float.

(** [range(start, stop)] as the list it iterates over. *)
Definition range (start stop : Z) : list Z :=
  (λ k : nat, start + Z.of_nat k) <$> seq 0 (Z.to_nat (stop - start)).

(** ** make_pts and Graph *)

Abbreviation point := (float * float)%type.

(** The loop of [make_pts]: [n] iterations left, [X] the list so far. *)
Fixpoint make_pts_loop (n : nat) (X : list point) : M (list point) :=
  match n with
  | O => mret X
  | S n' =>
      x_1 ← random_random;
      x_2 ← random_random;
      make_pts_loop n' (X ++ [(x_1, x_2)])
  end.

Definition make_pts (N : Z) : M (list point) :=
  make_pts_loop (Z.to_nat N) [].

Record Graph : Type := mkGraph { N : Z; X : list point; y : list Z }.

(** ** The generators *)

Definition simple (N : Z) : M Graph :=
  X ← make_pts N;
  let y := (λ '(x_1, x_2), if (x_1 <? 0.5)%float then 1 else 0) <$> X in
  mret (mkGraph N X y).

Definition diag (N : Z) : M Graph :=
  X ← make_pts N;
  let y := (λ '(x_1, x_2), if (x_1 + x_2 <? 0.5)%float then 1 else 0) <$> X in
  mret (mkGraph N X y).

Definition split (N : Z) : M Graph :=
  X ← make_pts N;
  let y := (λ '(x_1, x_2),
              if (x_1 <? 0.2)%float || (0.8 <? x_1)%float then 1 else 0) <$> X in
  mret (mkGraph N X y).

Definition xor (N : Z) : M Graph :=
  X ← make_pts N;
  let y := (λ '(x_1, x_2),
              if (x_1 <? 0.5)%float && (0.5 <? x_2)%float
                 || (0.5 <? x_1)%float && (x_2 <? 0.5)%float
              then 1 else 0) <$> X in
  mret (mkGraph N X y).

Definition circle `{L : Libm} (N : Z) : M Graph :=
  X ← make_pts N;
  let y := (λ '(x_1, x_2),
              if (0.1 <? float_pow (x_1 - 0.5) 2 + float_pow (x_2 - 0.5) 2)%float
              then 1 else 0) <$> X in
  mret (mkGraph N X y).

(** The two helpers nested in [spiral]. *)
Definition spiral_x `{L : Libm} (t : float) : float := (t * math_cos t / 20)%float.
Definition spiral_y `{L : Libm} (t : float) : float := (t * math_sin t / 20)%float.

Definition spiral `{L : Libm} (N : Z) : M Graph :=
  X ← mapM (λ i : Z,
        f1 ← float_of_int i;
        q1 ← float_truediv_int f1 (N / 2);
        f2 ← float_of_int i;
        q2 ← float_truediv_int f2 (N / 2);
        mret ((spiral_x (10 * q1) + 0.5)%float, (spiral_y (10 * q2) + 0.5)%float))
      (range (5 + 0) (5 + N / 2));
  X' ← mapM (λ i : Z,
        f1 ← float_of_int i;
        q1 ← float_truediv_int f1 (N / 2);
        f2 ← float_of_int i;
        q2 ← float_truediv_int f2 (N / 2);
        mret ((spiral_y (-10 * q1) + 0.5)%float, (spiral_x (-10 * q2) + 0.5)%float))
      (range (5 + 0) (5 + N / 2));
  let X := X ++ X' in
  let y2 := replicate (Z.to_nat (N / 2)) 0 ++ replicate (Z.to_nat (N / 2)) 1 in
  mret (mkGraph N X y2).

(** ** The registry *)

Definition datasets `{L : Libm} : gmap string (Z → M Graph) :=
  list_to_map [
    ("Simple"%string, simple);
    ("Diag"%string, diag);
    ("Split"%string, split);
    ("Xor"%string, xor);
    ("Circle"%string, circle);
    ("Spiral"%string, spiral)
  ].

(** The subscript [d[key]] of a dictionary: KeyError on an absent key.
    The specification calls this lookup [resolve] and its failure
    [UnknownDatasetName]. *)
Definition getitem {V : Type} (d : gmap string V) (key : string) : result V :=
  match d !! key with
  | Some v => Ok v
  | None => Raise (KeyError key)
  end.

Definition resolve `{L : Libm} (name : string) : result (Z → M Graph) :=
  getitem datasets name.

(** ** Instances used to run the generators *)

(** A libm to evaluate examples with: the square for [pow x 2] and short
    Taylor polynomials for the trigonometric functions. Every theorem
    below holds for any [Libm]. *)
Definition ref_libm : Libm := {|
  math_cos := λ t, (1 - t * t / 2 + t * t * t * t / 24)%float;
  math_sin := λ t, (t - t * t * t / 6 + t * t * t * t * t / 120)%float;
  float_pow := λ x _, (x * x)%float
|}.

(** A generator state whose draws run through a fixed list, then repeat
    its default. *)
Definition rng_of_list (l : list float) : rng :=
  mkRng (λ k, nth k l 0.25%float) 0.

Definition rng0 : rng := rng_of_list [0.3; 0.9; 0.7; 0.1]%float.

Definition rng_boundary : rng := rng_of_list [0.5; 0.5]%float.

(** ** Vocabulary of the specification *)

(** The points [make_pts] returns, in closed form: the [k]-th point holds
    the draws number [c + 2k] and [c + 2k + 1] of the tape. *)
Definition pts_from (t : nat → float) (c n : nat) : list point :=
  (λ k : nat, (t (c + 2 * k)%nat, t (c + 2 * k + 1)%nat)) <$> seq 0 n.

(** A dataset of [n] drawn points labelled by [rule]. *)
Definition labelled_graph (rule : float → float → bool) (n : Z) (s : rng) : Graph :=
  let P := pts_from (tape s) (cursor s) (Z.to_nat n) in
  mkGraph n P ((λ p : point, if rule p.1 p.2 then 1 else 0) <$> P).

Definition labelled (rule : float → float → bool) (n : Z) (s : rng)
  : result Graph * rng :=
  (Ok (labelled_graph rule n s), advance (2 * Z.to_nat n) s).

(** The label at each index is 1 when [rule] holds of the point at that
    index and 0 otherwise. *)
Definition labels_follow (rule : float → float → bool) (g : Graph) : Prop :=
  ∀ (i : nat) (x1 x2 : float),
    X g !! i = Some (x1, x2) → y g !! i = Some (if rule x1 x2 then 1 else 0).

(** The invariant of the data model for a requested count [n]. *)
Definition well_formed (n : Z) (g : Graph) : Prop :=
  N g = n ∧ Z.of_nat (length (X g)) = n ∧ Z.of_nat (length (y g)) = n
  ∧ Forall (λ l, l = 0 ∨ l = 1) (y g).

(** Membership in the interval [0, 1). *)
Definition in_unit (x : float) : bool := (0 <=? x)%float && (x <? 1)%float.

(** Two generator states whose next [k] draws coincide. *)
Definition same_draws (k : nat) (s1 s2 : rng) : Prop :=
  ∀ j : nat, (j < k)%nat →
    tape s1 (cursor s1 + j)%nat = tape s2 (cursor s2 + j)%nat.

(** The spiral arms as the specification words them, for [h = N // 2] and
    the loop index [i]. *)
Definition spec_arm_a `{L : Libm} (h i : Z) : point :=
  let t := (10 * (float_of_Z i / float_of_Z h))%float in
  ((t * math_cos t / 20 + 0.5)%float, (t * math_sin t / 20 + 0.5)%float).

Definition spec_arm_b `{L : Libm} (h i : Z) : point :=
  let t := (-10 * (float_of_Z i / float_of_Z h))%float in
  ((t * math_sin t / 20 + 0.5)%float, (t * math_cos t / 20 + 0.5)%float).

(** The keys of the registry. *)
Definition registry_keys : list string :=
  ["Simple"; "Diag"; "Split"; "Xor"; "Circle"; "Spiral"]%string.

(** Rewriting a monadic run step by step; the equations are collected in
    the database [run] below. *)
Create Rewrite HintDb run.

Ltac run := repeat (progress (autorewrite with run; cbv beta iota)).

Ltac run_with Hi Hc Hz :=
  repeat (progress (autorewrite with run; rewrite ?Hi, ?Hc, ?Hz; cbv beta iota)).

(** * Running the monad *)

Lemma bind_run {A B} (m : M A) (f : A → M B) s :
  (m ≫= f) s
  = match m s with
    | (Ok a, s') => f a s'
    | (Raise e, s') => (Raise e, s')
    end.
Proof. reflexivity. Qed.

Lemma ret_run {A} (a : A) s : @mret M _ A a s = (Ok a, s).
Proof. reflexivity. Qed.

Lemma raise_run {A} (e : exn) s : @raise A e s = (Raise e, s).
Proof. reflexivity. Qed.

Lemma advance_0 s : advance 0 s = s.
Proof. by destruct s. Qed.

Lemma mapM_cons {A B} (f : A → M B) x l :
  mapM f (x :: l) = (y ← f x; k ← mapM f l; mret (y :: k)).
Proof. reflexivity. Qed.

(** A comprehension whose element expression succeeds without touching
    the generator is a plain map. *)
Lemma mapM_ok {A B} (f : A → M B) (g : A → B) l s :
  (∀ x, x ∈ l → f x s = (Ok (g x), s)) → mapM f l s = (Ok (g <$> l), s).
Proof.
  induction l as [|x l IH]; intros Hf; [done|].
  rewrite mapM_cons, bind_run, Hf by left. rewrite bind_run, IH; [done|].
  intros x' Hx'. apply Hf. by right.
Qed.

(** The first element that raises ends the comprehension. *)
Lemma mapM_raise {A B} (f : A → M B) (g : A → B) l1 x l2 e s :
  (∀ x', x' ∈ l1 → f x' s = (Ok (g x'), s)) → f x s = (Raise e, s) →
  mapM f (l1 ++ x :: l2) s = (Raise e, s).
Proof.
  induction l1 as [|x1 l1 IH]; intros Hf Hx.
  - cbn [app]. by rewrite mapM_cons, bind_run, Hx.
  - cbn [app]. rewrite mapM_cons, bind_run, Hf by left.
    rewrite bind_run, IH; [done| |done].
    intros x' Hx'. apply Hf. by right.
Qed.

(** * Integers, floats and ranges *)

(** The constant is the conversion threshold: one below it still rounds
    to the largest finite binary64, the constant itself to infinity. *)
Lemma DBL_OVERFLOW_threshold :
  binary_normalize prec emax (DBL_OVERFLOW - 1) 0 false
    = S754_finite false (2 ^ 53 - 1) 971
  ∧ binary_normalize prec emax DBL_OVERFLOW 0 false = S754_infinity false
  ∧ binary_normalize prec emax (- DBL_OVERFLOW) 0 false = S754_infinity true.
Proof. by vm_compute. Qed.

Lemma DBL_OVERFLOW_pos : 9 < DBL_OVERFLOW.
Proof. by vm_compute. Qed.

Lemma float_of_int_run z s :
  float_of_int z s
  = (if Z.abs z <? DBL_OVERFLOW then Ok (float_of_Z z) else Raise OverflowError, s).
Proof. unfold float_of_int. by destruct (Z.abs z <? DBL_OVERFLOW). Qed.

Lemma float_truediv_int_run a b s :
  float_truediv_int a b s
  = (if Z.abs b <? DBL_OVERFLOW
     then if b =? 0 then Raise ZeroDivisionError else Ok (a / float_of_Z b)%float
     else Raise OverflowError, s).
Proof.
  unfold float_truediv_int. rewrite bind_run, float_of_int_run.
  destruct (Z.abs b <? DBL_OVERFLOW); [|done]. by destruct (b =? 0).
Qed.

#[local] Hint Rewrite @bind_run @ret_run @raise_run float_of_int_run
  float_truediv_int_run : run.

Lemma elem_of_range start stop i : i ∈ range start stop ↔ start ≤ i < stop.
Proof.
  unfold range. rewrite list_elem_of_fmap. split.
  - intros (k & -> & Hk). apply elem_of_seq in Hk. lia.
  - intros Hi. exists (Z.to_nat (i - start)). split; [lia|].
    apply elem_of_seq. lia.
Qed.

Lemma length_range start stop :
  length (range start stop) = Z.to_nat (stop - start).
Proof. unfold range. by rewrite length_fmap, length_seq. Qed.

Lemma lookup_range start stop (k : nat) :
  (k < Z.to_nat (stop - start))%nat →
  range start stop !! k = Some (start + Z.of_nat k).
Proof.
  intros Hk. unfold range. by rewrite list_lookup_fmap, lookup_seq_lt.
Qed.

Lemma range_empty start stop : stop ≤ start → range start stop = [].
Proof.
  intros Hle. unfold range.
  by replace (Z.to_nat (stop - start)) with 0%nat by lia.
Qed.

Lemma range_split start mid stop :
  start ≤ mid < stop →
  range start stop = range start mid ++ mid :: range (mid + 1) stop.
Proof.
  intros Hm. unfold range.
  replace (Z.to_nat (stop - start))
    with (Z.to_nat (mid - start) + S (Z.to_nat (stop - (mid + 1))))%nat by lia.
  rewrite seq_app, fmap_app. f_equal. cbn [seq fmap list_fmap]. f_equal; [lia|].
  apply list_eq. intros k. rewrite !list_lookup_fmap.
  destruct (decide (k < Z.to_nat (stop - (mid + 1)))%nat) as [Hk|Hk].
  - rewrite !lookup_seq_lt by done. cbn. f_equal. lia.
  - by rewrite !lookup_seq_ge by lia.
Qed.

(** * make_pts *)

Lemma pts_from_S t c n :
  pts_from t c (S n) = (t c, t (S c)) :: pts_from t (S (S c)) n.
Proof.
  unfold pts_from. cbn [seq fmap list_fmap].
  f_equal.
  - f_equal; f_equal; lia.
  - rewrite <- fmap_S_seq, <- list_fmap_compose.
    apply list_fmap_ext. intros _ k _. cbn. f_equal; f_equal; lia.
Qed.

Lemma length_pts_from t c n : length (pts_from t c n) = n.
Proof. unfold pts_from. by rewrite length_fmap, length_seq. Qed.

Lemma lookup_pts_from t c n (i : nat) :
  (i < n)%nat →
  pts_from t c n !! i = Some (t (c + 2 * i)%nat, t (c + 2 * i + 1)%nat).
Proof.
  intros Hi. unfold pts_from. by rewrite list_lookup_fmap, lookup_seq_lt.
Qed.

(** The loop appends the next [n] pairs of draws and moves the cursor by
    [2 n]. *)
Lemma make_pts_loop_run n : ∀ X s,
  make_pts_loop n X s
  = (Ok (X ++ pts_from (tape s) (cursor s) n), advance (2 * n) s).
Proof.
  induction n as [|n IH]; intros X s.
  - cbn [make_pts_loop pts_from seq fmap list_fmap].
    by rewrite ret_run, app_nil_r, advance_0.
  - cbn [make_pts_loop]. rewrite bind_run. unfold random_random at 1.
    cbv beta iota. rewrite bind_run. unfold random_random. cbv beta iota.
    cbn [tape cursor]. rewrite IH. cbn [tape cursor].
    rewrite pts_from_S, <- app_assoc. cbn [app].
    unfold advance. cbn [tape cursor]. do 2 f_equal. lia.
Qed.

Lemma make_pts_run n s :
  make_pts n s
  = (Ok (pts_from (tape s) (cursor s) (Z.to_nat n)), advance (2 * Z.to_nat n) s).
Proof. unfold make_pts. by rewrite make_pts_loop_run. Qed.

#[local] Hint Rewrite make_pts_run : run.

(** * The five generators over drawn points *)

Section Labelled.
Context `{L : Libm}.

Lemma simple_run n s :
  simple n s = labelled (λ x_1 x_2, (x_1 <? 0.5)%float) n s.
Proof.
  unfold simple, labelled, labelled_graph. run. do 3 f_equal.
  apply list_fmap_ext. by intros _ [??] _.
Qed.

Lemma diag_run n s :
  diag n s = labelled (λ x_1 x_2, (x_1 + x_2 <? 0.5)%float) n s.
Proof.
  unfold diag, labelled, labelled_graph. run. do 3 f_equal.
  apply list_fmap_ext. by intros _ [??] _.
Qed.

Lemma split_run n s :
  split n s
  = labelled (λ x_1 x_2, (x_1 <? 0.2)%float || (0.8 <? x_1)%float) n s.
Proof.
  unfold split, labelled, labelled_graph. run. do 3 f_equal.
  apply list_fmap_ext. by intros _ [??] _.
Qed.

Lemma xor_run n s :
  xor n s
  = labelled (λ x_1 x_2,
      (x_1 <? 0.5)%float && (0.5 <? x_2)%float
      || (0.5 <? x_1)%float && (x_2 <? 0.5)%float) n s.
Proof.
  unfold xor, labelled, labelled_graph. run. do 3 f_equal.
  apply list_fmap_ext. by intros _ [??] _.
Qed.

Lemma circle_run n s :
  circle n s
  = labelled (λ x_1 x_2,
      (0.1 <? float_pow (x_1 - 0.5) 2 + float_pow (x_2 - 0.5) 2)%float) n s.
Proof.
  unfold circle, labelled, labelled_graph. run. do 3 f_equal.
  apply list_fmap_ext. by intros _ [??] _.
Qed.

Lemma labelled_follows rule n s : labels_follow rule (labelled_graph rule n s).
Proof.
  unfold labels_follow, labelled_graph. cbv zeta. cbn [X y].
  intros i x1 x2 Hi. by rewrite list_lookup_fmap, Hi.
Qed.

Lemma labelled_well_formed rule n s :
  0 ≤ n → well_formed n (labelled_graph rule n s).
Proof.
  intros Hn. unfold well_formed, labelled_graph. cbv zeta. cbn [N X y].
  rewrite length_fmap, length_pts_from. repeat split; try lia.
  apply Forall_fmap, Forall_forall. intros p _. cbn.
  destruct (rule p.1 p.2); auto.
Qed.

Lemma labelled_negative rule n s :
  n < 0 → labelled rule n s = (Ok (mkGraph n [] []), s).
Proof.
  intros Hn. unfold labelled, labelled_graph.
  replace (Z.to_nat n) with 0%nat by lia. by rewrite advance_0.
Qed.

Lemma pts_from_same_draws m s1 s2 :
  same_draws (2 * m) s1 s2 →
  pts_from (tape s1) (cursor s1) m = pts_from (tape s2) (cursor s2) m.
Proof.
  intros Hs. unfold pts_from. apply list_fmap_ext.
  intros i k [-> Hi]%lookup_seq. cbn [Nat.add].
  rewrite <- Nat.add_assoc, !Hs by lia. by rewrite Nat.add_assoc.
Qed.

Lemma labelled_same_draws rule n s1 s2 :
  same_draws (2 * Z.to_nat n) s1 s2 →
  fst (labelled rule n s1) = fst (labelled rule n s2).
Proof.
  intros Hs. unfold labelled, labelled_graph. cbn [fst].
  by rewrite (pts_from_same_draws _ s1 s2).
Qed.

(** * spiral *)

Lemma spiral_small n s : n < 2 → spiral n s = (Ok (mkGraph n [] []), s).
Proof.
  intros Hn.
  assert (n / 2 ≤ 0) as Hh by (apply Z.lt_succ_r, Z.div_lt_upper_bound; lia).
  unfold spiral. rewrite range_empty by lia. cbn [mapM]. run.
  by replace (Z.to_nat (n / 2)) with 0%nat by lia.
Qed.

Lemma spiral_run n s :
  2 ≤ n → n / 2 + 4 < DBL_OVERFLOW →
  spiral n s
  = (Ok (mkGraph n
           ((spec_arm_a (n / 2) <$> range 5 (5 + n / 2))
              ++ (spec_arm_b (n / 2) <$> range 5 (5 + n / 2)))
           (replicate (Z.to_nat (n / 2)) 0 ++ replicate (Z.to_nat (n / 2)) 1)), s).
Proof.
  intros Hn Hb. assert (1 ≤ n / 2) as Hh by (apply Z.div_le_lower_bound; lia).
  assert ((Z.abs (n / 2) <? DBL_OVERFLOW) = true) as Hc by (apply Z.ltb_lt; lia).
  assert ((n / 2 =? 0) = false) as Hz by (apply Z.eqb_neq; lia).
  unfold spiral. rewrite bind_run.
  rewrite (mapM_ok _ (spec_arm_a (n / 2))).
  2:{ intros i [Hi1 Hi2]%elem_of_range.
      assert ((Z.abs i <? DBL_OVERFLOW) = true) as Hi by (apply Z.ltb_lt; lia).
      by run_with Hi Hc Hz. }
  rewrite bind_run.
  rewrite (mapM_ok _ (spec_arm_b (n / 2))).
  2:{ intros i [Hi1 Hi2]%elem_of_range.
      assert ((Z.abs i <? DBL_OVERFLOW) = true) as Hi by (apply Z.ltb_lt; lia).
      by run_with Hi Hc Hz. }
  done.
Qed.

(** Beyond the bound some operand does not convert to a float, and the
    first comprehension raises. *)
Lemma spiral_overflow n s :
  DBL_OVERFLOW ≤ n / 2 + 4 → spiral n s = (Raise OverflowError, s).
Proof.
  intros Hb. pose proof DBL_OVERFLOW_pos as Hp.
  assert ((n / 2 =? 0) = false) as Hz by (apply Z.eqb_neq; lia).
  unfold spiral. rewrite bind_run.
  destruct (Z.abs (n / 2) <? DBL_OVERFLOW) eqn:Hc.
  - apply Z.ltb_lt in Hc.
    rewrite (range_split _ DBL_OVERFLOW) by lia.
    rewrite (mapM_raise _ (spec_arm_a (n / 2)) _ _ _ OverflowError); [done| |].
    + intros i [Hi1 Hi2]%elem_of_range.
      assert ((Z.abs i <? DBL_OVERFLOW) = true) as Hi by (apply Z.ltb_lt; lia).
      apply Z.ltb_lt in Hc. by run_with Hi Hc Hz.
    + assert ((Z.abs DBL_OVERFLOW <? DBL_OVERFLOW) = false) as Hi
        by (apply Z.ltb_ge; lia).
      by run_with Hi Hi Hz.
  - apply Z.ltb_ge in Hc.
    rewrite (range_split _ 5) by lia. rewrite (range_empty _ 5) by lia.
    rewrite (mapM_raise _ (spec_arm_a (n / 2)) [] _ _ OverflowError); [done| |].
    + by intros i ?%elem_of_nil.
    + assert ((Z.abs 5 <? DBL_OVERFLOW) = true) as Hi by (apply Z.ltb_lt; lia).
      apply Z.ltb_ge in Hc. by run_with Hi Hc Hz.
Qed.

(** The three cases together: spiral never reads the generator. *)
Lemma spiral_pure n : ∃ r, r ≠ Raise ZeroDivisionError ∧ ∀ s, spiral n s = (r, s).
Proof.
  destruct (decide (n < 2)) as [Hn|Hn].
  { eexists. split; [|intros s; by apply spiral_small]. done. }
  destruct (decide (n / 2 + 4 < DBL_OVERFLOW)) as [Hb|Hb].
  { eexists. split; [|intros s; apply spiral_run; lia]. done. }
  eexists. split; [|intros s; apply spiral_overflow; lia]. done.
Qed.

End Labelled.

(** * The claims of the specification *)

(** C1. In the dataset each of simple, diag, split, xor and circle
    returns, the label at an index is 1 exactly when the generator's rule
    holds of the point at that index, and 0 otherwise: x1 < 0.5 for
    simple, x1 + x2 < 0.5 for diag, x1 < 0.2 or x1 > 0.8 for split,
    (x1 < 0.5 and x2 > 0.5) or (x1 > 0.5 and x2 < 0.5) for xor, and
    (x1 - 0.5)^2 + (x2 - 0.5)^2 > 0.1 for circle. On the draws 0.3, 0.9,
    0.7, 0.1 simple labels (0.3, 0.9) as 1 and (0.7, 0.1) as 0. *)
Theorem labels_follow_rules `{L : Libm} (n : Z) (s : rng) :
  (∃ g s', simple n s = (Ok g, s')
     ∧ labels_follow (λ x1 x2, (x1 <? 0.5)%float) g)
  ∧ (∃ g s', diag n s = (Ok g, s')
     ∧ labels_follow (λ x1 x2, (x1 + x2 <? 0.5)%float) g)
  ∧ (∃ g s', split n s = (Ok g, s')
     ∧ labels_follow (λ x1 x2, (x1 <? 0.2)%float || (0.8 <? x1)%float) g)
  ∧ (∃ g s', xor n s = (Ok g, s')
     ∧ labels_follow (λ x1 x2,
         (x1 <? 0.5)%float && (0.5 <? x2)%float
         || (0.5 <? x1)%float && (x2 <? 0.5)%float) g)
  ∧ (∃ g s', circle n s = (Ok g, s')
     ∧ labels_follow (λ x1 x2,
         (0.1 <? float_pow (x1 - 0.5) 2 + float_pow (x2 - 0.5) 2)%float) g)
  ∧ fst (simple 2 rng0)
    = Ok (mkGraph 2 [(0.3, 0.9); (0.7, 0.1)]%float [1; 0]).
Proof.
  rewrite simple_run, diag_run, split_run, xor_run, circle_run.
  repeat split;
    try (eexists _, _; split; [reflexivity | apply labelled_follows]).
Qed.

(** C3. For every N >= 0 each of simple, diag, split, xor and circle
    returns a dataset whose count is N, whose points and labels both have
    length N, and whose labels are all 0 or 1. *)
Theorem generators_well_formed `{L : Libm} (n : Z) (s : rng) :
  0 ≤ n →
  ∀ gen, gen ∈ [simple; diag; split; xor; circle] →
  ∃ g s', gen n s = (Ok g, s') ∧ well_formed n g.
Proof.
  intros Hn gen Hgen.
  repeat (apply elem_of_cons in Hgen as [->|Hgen]);
    [rewrite simple_run | rewrite diag_run | rewrite split_run
    | rewrite xor_run | rewrite circle_run | by apply elem_of_nil in Hgen];
    (eexists _, _; split; [reflexivity | by apply labelled_well_formed]).
Qed.

Lemma generators_well_formed_witness :
  ∃ g s', circle (L := ref_libm) 3 rng0 = (Ok g, s') ∧ well_formed 3 g.
Proof.
  apply (generators_well_formed (L := ref_libm) 3 rng0); [lia|].
  do 4 apply list_elem_of_further. apply list_elem_of_here.
Defined.

(** C7. For every N >= 0 make_pts returns exactly N points; the point at
    index i holds the two draws it made in turn, the draws number 2i and
    2i + 1 after the cursor, and the cursor has moved by 2N; when the
    draws lie in [0, 1) so does every coordinate of every point; and
    make_pts(0) is the empty list. *)
Theorem make_pts_points (n : Z) (s : rng) :
  0 ≤ n →
  (∀ k : nat, (cursor s ≤ k)%nat → in_unit (tape s k) = true) →
  (∃ P, make_pts n s = (Ok P, advance (2 * Z.to_nat n) s)
     ∧ Z.of_nat (length P) = n
     ∧ (∀ i : nat, (i < Z.to_nat n)%nat →
          P !! i = Some (tape s (cursor s + 2 * i)%nat,
                         tape s (cursor s + 2 * i + 1)%nat))
     ∧ Forall (λ p : point, in_unit p.1 = true ∧ in_unit p.2 = true) P)
  ∧ make_pts 0 s = (Ok [], s).
Proof.
  intros Hn Hunit. split.
  - exists (pts_from (tape s) (cursor s) (Z.to_nat n)).
    rewrite make_pts_run, length_pts_from. repeat split; [lia| |].
    + intros i Hi. by apply lookup_pts_from.
    + apply Forall_lookup. intros i p Hp.
      assert (i < Z.to_nat n)%nat as Hi.
      { apply lookup_lt_Some in Hp. by rewrite length_pts_from in Hp. }
      rewrite lookup_pts_from in Hp by done. injection Hp as <-.
      cbn [fst snd]. split; apply Hunit; lia.
  - rewrite make_pts_run. cbn. by rewrite advance_0.
Qed.

Lemma rng0_in_unit (k : nat) : in_unit (tape rng0 k) = true.
Proof. by destruct k as [|[|[|[|[|k]]]]]. Qed.

Lemma make_pts_points_witness :
  ∃ P, make_pts 2 rng0 = (Ok P, advance 4 rng0) ∧ Z.of_nat (length P) = 2.
Proof.
  destruct (make_pts_points 2 rng0) as [(P & Hrun & Hlen & _) _].
  - lia.
  - intros k _. apply rng0_in_unit.
  - exists P. split; [exact Hrun | exact Hlen].
Defined.

(** C10. For every negative N make_pts returns the empty list without
    raising and without drawing, and each of simple, diag, split, xor and
    circle returns Graph(N, [], []): the count is the negative N while
    points and labels are empty, so the count differs from both
    lengths. *)
Theorem negative_count_empty `{L : Libm} (n : Z) (s : rng) :
  n < 0 →
  make_pts n s = (Ok [], s)
  ∧ ∀ gen, gen ∈ [simple; diag; split; xor; circle] →
      gen n s = (Ok (mkGraph n [] []), s)
      ∧ N (mkGraph n [] []) ≠ Z.of_nat (length (X (mkGraph n [] [])))
      ∧ N (mkGraph n [] []) ≠ Z.of_nat (length (y (mkGraph n [] []))).
Proof.
  intros Hn. split.
  - rewrite make_pts_run. replace (Z.to_nat n) with 0%nat by lia.
    by rewrite advance_0.
  - intros gen Hgen. split; [|cbn; lia].
    repeat (apply elem_of_cons in Hgen as [->|Hgen]);
      [rewrite simple_run | rewrite diag_run | rewrite split_run
      | rewrite xor_run | rewrite circle_run | by apply elem_of_nil in Hgen];
      by apply labelled_negative.
Qed.

Lemma negative_count_empty_witness :
  make_pts (-3) rng0 = (Ok [], rng0)
  ∧ xor (-3) rng0 = (Ok (mkGraph (-3) [] []), rng0).
Proof.
  destruct (negative_count_empty (L := ref_libm) (-3) rng0) as [Hpts Hgen].
  - lia.
  - split; [exact Hpts|]. apply Hgen.
    do 3 apply list_elem_of_further. apply list_elem_of_here.
Defined.

(** C9. The comparisons of the five rules are strict, so a point on a
    rule's boundary is labelled 0: x1 = 0.5 for simple; x1 = 0.5 or
    x2 = 0.5 for xor; x1 + x2 = 0.5 for diag; x1 = 0.2 or x1 = 0.8 for
    split; (x1 - 0.5)^2 + (x2 - 0.5)^2 = 0.1 for circle. The sums are the
    floating-point values the code computes. *)
Theorem boundary_points_labelled_zero `{L : Libm} (n : Z) (s : rng) :
  (∃ g s', simple n s = (Ok g, s')
     ∧ ∀ (i : nat) x1 x2, X g !! i = Some (x1, x2) →
         x1 = 0.5%float → y g !! i = Some 0)
  ∧ (∃ g s', xor n s = (Ok g, s')
     ∧ ∀ (i : nat) x1 x2, X g !! i = Some (x1, x2) →
         x1 = 0.5%float ∨ x2 = 0.5%float → y g !! i = Some 0)
  ∧ (∃ g s', diag n s = (Ok g, s')
     ∧ ∀ (i : nat) x1 x2, X g !! i = Some (x1, x2) →
         (x1 + x2)%float = 0.5%float → y g !! i = Some 0)
  ∧ (∃ g s', split n s = (Ok g, s')
     ∧ ∀ (i : nat) x1 x2, X g !! i = Some (x1, x2) →
         x1 = 0.2%float ∨ x1 = 0.8%float → y g !! i = Some 0)
  ∧ (∃ g s', circle n s = (Ok g, s')
     ∧ ∀ (i : nat) x1 x2, X g !! i = Some (x1, x2) →
         (float_pow (x1 - 0.5) 2 + float_pow (x2 - 0.5) 2)%float = 0.1%float →
         y g !! i = Some 0).
Proof.
  rewrite simple_run, xor_run, diag_run, split_run, circle_run.
  repeat split; eexists _, _; (split; [reflexivity|]);
    intros i x1 x2 Hi Hb; rewrite (labelled_follows _ _ _ _ _ _ Hi).
  - by subst x1.
  - destruct Hb as [-> | ->]; [done|].
    by destruct (x1 <? 0.5)%float, (0.5 <? x1)%float.
  - by rewrite Hb.
  - by destruct Hb as [-> | ->].
  - by rewrite Hb.
Qed.

Lemma boundary_points_labelled_zero_witness :
  ∃ g s', simple 1 rng_boundary = (Ok g, s')
    ∧ X g !! 0%nat = Some (0.5, 0.5)%float ∧ y g !! 0%nat = Some 0.
Proof.
  destruct (boundary_points_labelled_zero (L := ref_libm) 1 rng_boundary)
    as [(g & s' & Hrun & Hzero) _].
  assert (X g !! 0%nat = Some (0.5, 0.5)%float) as HX.
  { rewrite simple_run in Hrun. by injection Hrun as <- _. }
  exists g, s'. split; [exact Hrun|]. split; [exact HX|].
  apply (Hzero 0%nat 0.5%float 0.5%float HX). reflexivity.
Defined.

(** C8. The generators are functions of N and of the draws they consume:
    simple, diag, split, xor and circle return the same result from two
    generator states whose next 2N draws coincide, in particular from the
    same state; spiral returns the same result from any two states and
    leaves the state as it found it. *)
Theorem generators_deterministic `{L : Libm} (n : Z) (s1 s2 : rng) :
  (same_draws (2 * Z.to_nat n) s1 s2 →
   ∀ gen, gen ∈ [simple; diag; split; xor; circle] →
     fst (gen n s1) = fst (gen n s2))
  ∧ fst (spiral n s1) = fst (spiral n s2)
  ∧ snd (spiral n s1) = s1.
Proof.
  split.
  - intros Hs gen Hgen.
    repeat (apply elem_of_cons in Hgen as [->|Hgen]);
      [rewrite !simple_run | rewrite !diag_run | rewrite !split_run
      | rewrite !xor_run | rewrite !circle_run | by apply elem_of_nil in Hgen];
      by apply labelled_same_draws.
  - destruct (spiral_pure n) as (r & _ & Hr). by rewrite !Hr.
Qed.

Lemma same_draws_rng0 :
  same_draws 4 rng0 (rng_of_list [0.3; 0.9; 0.7; 0.1; 0.6]%float).
Proof.
  intros j Hj. destruct j as [|[|[|[|j]]]]; try reflexivity. lia.
Defined.

Lemma generators_deterministic_witness :
  fst (xor 2 rng0) = fst (xor 2 (rng_of_list [0.3; 0.9; 0.7; 0.1; 0.6]%float)).
Proof.
  apply (generators_deterministic (L := ref_libm) 2 rng0
           (rng_of_list [0.3; 0.9; 0.7; 0.1; 0.6]%float)).
  - exact same_draws_rng0.
  - do 3 apply list_elem_of_further. apply list_elem_of_here.
Defined.

(** C6. The registry maps exactly the six keys Simple, Diag, Split, Xor,
    Circle and Spiral, each to the generator of that name; the lookup is
    an exact, case-sensitive match, and a name outside the six (bogus,
    or xor in lower case) fails with KeyError, the not-found failure. *)
Theorem registry_domain_and_lookup `{L : Libm} :
  dom datasets = list_to_set (C := gset string) registry_keys
  ∧ resolve "Simple" = Ok simple
  ∧ resolve "Diag" = Ok diag
  ∧ resolve "Split" = Ok split
  ∧ resolve "Xor" = Ok xor
  ∧ resolve "Circle" = Ok circle
  ∧ resolve "Spiral" = Ok spiral
  ∧ resolve "bogus" = Raise (KeyError "bogus")
  ∧ resolve "xor" = Raise (KeyError "xor")
  ∧ ∀ name, name ∉ registry_keys → resolve name = Raise (KeyError name).
Proof.
  assert (dom datasets = list_to_set (C := gset string) registry_keys) as Hdom.
  { unfold datasets. by rewrite dom_list_to_map_L. }
  repeat split; try done.
  intros name Hname. unfold resolve, getitem.
  destruct (datasets !! name) as [gen|] eqn:Hlook; [|done].
  exfalso. apply Hname. apply elem_of_dom_2 in Hlook.
  rewrite Hdom in Hlook. by apply elem_of_list_to_set in Hlook.
Qed.

Lemma registry_domain_and_lookup_witness :
  resolve (L := ref_libm) "Bogus" = Raise (KeyError "Bogus").
Proof.
  apply (registry_domain_and_lookup (L := ref_libm)).
  intros Hin. unfold registry_keys in Hin.
  repeat (apply elem_of_cons in Hin as [Hin|Hin]; [discriminate Hin|]).
  by apply elem_of_nil in Hin.
Defined.

(** C5, as the code has it. For every N < 2 the range of both
    comprehensions is empty, so spiral performs no division and returns
    Graph(N, [], []) with the generator state untouched; and for no N at
    all does spiral raise ZeroDivisionError. *)
Theorem spiral_below_two_is_empty `{L : Libm} (n : Z) (s : rng) :
  (n < 2 → spiral n s = (Ok (mkGraph n [] []), s))
  ∧ fst (spiral n s) ≠ Raise ZeroDivisionError.
Proof.
  split; [apply spiral_small|].
  destruct (spiral_pure n) as (r & Hr & Hrun). by rewrite Hrun.
Qed.

Lemma spiral_below_two_is_empty_witness :
  spiral (L := ref_libm) (-1) rng0 = (Ok (mkGraph (-1) [] []), rng0).
Proof.
  apply (spiral_below_two_is_empty (L := ref_libm) (-1) rng0). lia.
Defined.

(** C5 as stated fails: spiral(1) and spiral(0) return a dataset. *)
Lemma spiral_below_two_returns :
  spiral (L := ref_libm) 1 rng0 = (Ok (mkGraph 1 [] []), rng0)
  ∧ spiral (L := ref_libm) 0 rng0 = (Ok (mkGraph 0 [] []), rng0).
Proof. split; reflexivity. Qed.

(** C2, as the code has it. For every N >= 2 whose loop indices and
    divisor convert to a float, that is N // 2 + 4 < 2^1024 - 2^970,
    spiral leaves the generator untouched and returns 2 (N // 2) points:
    the point at index k < N // 2 is arm A at i = 5 + k, the point at
    index N // 2 + k is arm B at i = 5 + k with the coordinate roles
    swapped, and the labels are N // 2 zeros then N // 2 ones, aligned
    with the points. *)
Theorem spiral_arms `{L : Libm} (n : Z) (s : rng) :
  2 ≤ n → n / 2 + 4 < DBL_OVERFLOW →
  ∃ g, spiral n s = (Ok g, s)
    ∧ length (X g) = (2 * Z.to_nat (n / 2))%nat
    ∧ y g = replicate (Z.to_nat (n / 2)) 0 ++ replicate (Z.to_nat (n / 2)) 1
    ∧ ∀ k : nat, (k < Z.to_nat (n / 2))%nat →
        X g !! k = Some (spec_arm_a (n / 2) (5 + Z.of_nat k))
        ∧ X g !! (Z.to_nat (n / 2) + k)%nat
          = Some (spec_arm_b (n / 2) (5 + Z.of_nat k))
        ∧ y g !! k = Some 0
        ∧ y g !! (Z.to_nat (n / 2) + k)%nat = Some 1.
Proof.
  intros Hn Hb. eexists. split; [by apply spiral_run|]. cbn [X y].
  assert (∀ f : Z → point,
            length (f <$> range 5 (5 + n / 2)) = Z.to_nat (n / 2)) as Hlen.
  { intros f. rewrite length_fmap, length_range. f_equal. lia. }
  split; [rewrite length_app, !Hlen; lia|]. split; [done|].
  intros k Hk. repeat split.
  - rewrite lookup_app_l by (rewrite Hlen; lia).
    rewrite list_lookup_fmap, lookup_range by lia. done.
  - rewrite lookup_app_r by (rewrite Hlen; lia). rewrite Hlen.
    replace (Z.to_nat (n / 2) + k - Z.to_nat (n / 2))%nat with k by lia.
    rewrite list_lookup_fmap, lookup_range by lia. done.
  - rewrite lookup_app_l by (rewrite length_replicate; lia).
    by apply lookup_replicate_2.
  - rewrite lookup_app_r by (rewrite length_replicate; lia).
    rewrite length_replicate. apply lookup_replicate_2. lia.
Qed.

Lemma spiral_arms_witness :
  ∃ g, spiral (L := ref_libm) 10 rng0 = (Ok g, rng0)
    ∧ X g !! 0%nat = Some (spec_arm_a (L := ref_libm) 5 5)
    ∧ X g !! 5%nat = Some (spec_arm_b (L := ref_libm) 5 5).
Proof.
  destruct (spiral_arms (L := ref_libm) 10 rng0) as (g & Hrun & _ & _ & Harm).
  - lia.
  - by vm_compute.
  - exists g. split; [exact Hrun|].
    destruct (Harm 0%nat) as (Ha & Hb & _); [vm_compute; lia|].
    split; [exact Ha | exact Hb].
Defined.

(** C2 as stated fails: for N = 2^1025 the divisor N // 2 does not convert
    to a float and spiral raises OverflowError at the first point. *)
Lemma spiral_arms_overflow :
  2 ≤ 2 ^ 1025
  ∧ spiral (L := ref_libm) (2 ^ 1025) rng0 = (Raise OverflowError, rng0).
Proof. split; [done|]. apply spiral_overflow. by vm_compute. Qed.

(** C4, as the code has it. For every N >= 2 with
    N // 2 + 4 < 2^1024 - 2^970, spiral returns a dataset whose count is N
    and whose points and labels both have length 2 (N // 2): for odd N
    the length is N - 1 and differs from the count, for even N it is the
    count. spiral(10) has 10 points and the labels
    0,0,0,0,0,1,1,1,1,1. *)
Theorem spiral_count_and_lengths `{L : Libm} (s : rng) :
  (∀ n : Z, 2 ≤ n → n / 2 + 4 < DBL_OVERFLOW →
     ∃ g, spiral n s = (Ok g, s)
       ∧ N g = n
       ∧ Z.of_nat (length (X g)) = 2 * (n / 2)
       ∧ Z.of_nat (length (y g)) = 2 * (n / 2)
       ∧ (Z.odd n = true →
            Z.of_nat (length (X g)) = n - 1 ∧ Z.of_nat (length (X g)) ≠ N g)
       ∧ (Z.even n = true → Z.of_nat (length (X g)) = N g))
  ∧ ∃ P, spiral 10 s = (Ok (mkGraph 10 P [0; 0; 0; 0; 0; 1; 1; 1; 1; 1]), s)
      ∧ length P = 10%nat.
Proof.
  split.
  - intros n Hn Hb. eexists. split; [by apply spiral_run|]. cbn [N X y].
    assert (1 ≤ n / 2) as Hh by (apply Z.div_le_lower_bound; lia).
    rewrite !length_app, !length_fmap, !length_range, !length_replicate.
    replace (Z.to_nat (5 + n / 2 - 5)) with (Z.to_nat (n / 2)) by (f_equal; lia).
    pose proof (Z.div_mod n 2 ltac:(lia)) as Hdm.
    pose proof (Zmod_odd n) as Hodd.
    split; [done|]. split; [lia|]. split; [lia|]. split.
    + intros Ho. rewrite Ho in Hodd. lia.
    + intros He. rewrite <- Z.negb_even, He in Hodd. cbn in Hodd. lia.
  - eexists. split; [by vm_compute|done].
Qed.

Lemma spiral_count_and_lengths_witness :
  ∃ g, spiral (L := ref_libm) 11 rng0 = (Ok g, rng0)
    ∧ N g = 11 ∧ Z.of_nat (length (X g)) = 10.
Proof.
  destruct (spiral_count_and_lengths (L := ref_libm) rng0) as [Hall _].
  destruct (Hall 11) as (g & Hrun & Hcount & Hlen & _).
  - lia.
  - by vm_compute.
  - exists g. split; [exact Hrun|]. split; [exact Hcount | exact Hlen].
Defined.

(** C4 as stated fails: for N = 2^1025 + 1 no dataset is returned, so
    there is no count and there are no lengths. *)
Lemma spiral_count_overflow :
  ¬ ∃ g s', spiral (L := ref_libm) (2 ^ 1025 + 1) rng0 = (Ok g, s').
Proof.
  intros (g & s' & Hrun). rewrite spiral_overflow in Hrun; [done|].
  by vm_compute.
Qed.

(** * Further properties of the code *)

Lemma pts_from_app t n1 : ∀ c n2,
  pts_from t c (n1 + n2) = pts_from t c n1 ++ pts_from t (c + 2 * n1) n2.
Proof.
  induction n1 as [|n1 IH]; intros c n2.
  - cbn [Nat.add Nat.mul app pts_from seq fmap list_fmap].
    by rewrite Nat.add_0_r.
  - replace (c + 2 * S n1)%nat with (S (S c) + 2 * n1)%nat by lia.
    cbn [Nat.add]. by rewrite !pts_from_S, IH.
Qed.

Lemma advance_advance j k s : advance j (advance k s) = advance (j + k) s.
Proof. unfold advance. cbn [tape cursor]. f_equal. lia. Qed.

(** X1. Two calls of make_pts in a row, for a and then b points, return
    between them the points of one call for a + b points and leave the
    generator in the same state: the second call goes on where the first
    stopped. *)
Theorem make_pts_sequential (a b : Z) (s : rng) :
  0 ≤ a → 0 ≤ b →
  ∃ P1 P2 s1 s2,
    make_pts a s = (Ok P1, s1)
    ∧ make_pts b s1 = (Ok P2, s2)
    ∧ make_pts (a + b) s = (Ok (P1 ++ P2), s2).
Proof.
  intros Ha Hb. eexists _, _, _, _.
  split; [apply make_pts_run|]. split; [apply make_pts_run|].
  rewrite make_pts_run, advance_advance. cbn [advance tape cursor].
  rewrite Z2Nat.inj_add, pts_from_app by lia.
  replace (2 * Z.to_nat a + cursor s)%nat
    with (cursor s + 2 * Z.to_nat a)%nat by lia.
  replace (2 * Z.to_nat b + 2 * Z.to_nat a)%nat
    with (2 * (Z.to_nat a + Z.to_nat b))%nat by lia.
  done.
Qed.

Lemma make_pts_sequential_witness :
  ∃ P1 P2 s1 s2,
    make_pts 1 rng0 = (Ok P1, s1)
    ∧ make_pts 1 s1 = (Ok P2, s2)
    ∧ make_pts (1 + 1) rng0 = (Ok (P1 ++ P2), s2).
Proof. apply (make_pts_sequential 1 1 rng0); lia. Defined.

(** X2. From one generator state, simple, diag, split, xor and circle
    all return the very points make_pts returns from that state and leave
    the state make_pts leaves, 2 max(N, 0) draws further on: only the
    labels differ between them. *)
Theorem generators_share_points `{L : Libm} (n : Z) (s : rng) :
  ∃ P, make_pts n s = (Ok P, advance (2 * Z.to_nat n) s)
    ∧ ∀ gen, gen ∈ [simple; diag; split; xor; circle] →
        ∃ labels, gen n s = (Ok (mkGraph n P labels), advance (2 * Z.to_nat n) s)
          ∧ length labels = length P.
Proof.
  eexists. split; [apply make_pts_run|]. intros gen Hgen.
  repeat (apply elem_of_cons in Hgen as [->|Hgen]);
    [rewrite simple_run | rewrite diag_run | rewrite split_run
    | rewrite xor_run | rewrite circle_run | by apply elem_of_nil in Hgen];
    (eexists; split; [reflexivity | by rewrite length_fmap]).
Qed.

(** X3. Asking for more points from the same generator state extends the
    dataset: for 0 <= N <= N' the points and the labels of each of
    simple, diag, split, xor and circle at N are prefixes of those at
    N'. *)
Theorem generators_extend `{L : Libm} (n n' : Z) (s : rng) :
  0 ≤ n → n ≤ n' →
  ∀ gen, gen ∈ [simple; diag; split; xor; circle] →
  ∃ g g' s1 s2,
    gen n s = (Ok g, s1) ∧ gen n' s = (Ok g', s2)
    ∧ X g `prefix_of` X g' ∧ y g `prefix_of` y g'.
Proof.
  intros Hn Hn' gen Hgen.
  assert (Z.to_nat n' = (Z.to_nat n + Z.to_nat (n' - n))%nat) as Hsplit by lia.
  repeat (apply elem_of_cons in Hgen as [->|Hgen]);
    [rewrite !simple_run | rewrite !diag_run | rewrite !split_run
    | rewrite !xor_run | rewrite !circle_run | by apply elem_of_nil in Hgen];
    (eexists _, _, _, _; split; [reflexivity|]; split; [reflexivity|];
     unfold labelled_graph; cbv zeta; cbn [X y];
     rewrite Hsplit, pts_from_app, fmap_app;
     split; apply prefix_app_r; reflexivity).
Qed.

Lemma generators_extend_witness :
  ∃ g g' s1 s2,
    diag 1 rng0 = (Ok g, s1) ∧ diag 2 rng0 = (Ok g', s2)
    ∧ X g `prefix_of` X g' ∧ y g `prefix_of` y g'.
Proof.
  apply (generators_extend (L := ref_libm) 1 2 rng0); [lia | lia |].
  apply list_elem_of_further, list_elem_of_here.
Defined.

(** X4. spiral either returns a dataset or raises OverflowError, and
    never touches the generator: it returns exactly when N < 2 or
    N // 2 + 4 is below the float conversion threshold 2^1024 - 2^970. *)
Theorem spiral_returns_iff `{L : Libm} (n : Z) (s : rng) :
  ((∃ g, spiral n s = (Ok g, s)) ∨ spiral n s = (Raise OverflowError, s))
  ∧ ((∃ g s', spiral n s = (Ok g, s')) ↔ n < 2 ∨ n / 2 + 4 < DBL_OVERFLOW).
Proof.
  destruct (decide (n < 2)) as [Hn|Hn].
  { rewrite spiral_small by done. split; [left; eauto|].
    split; [by left | eauto]. }
  destruct (decide (n / 2 + 4 < DBL_OVERFLOW)) as [Hb|Hb].
  { rewrite spiral_run by lia. split; [left; eauto|].
    split; [by right | eauto]. }
  rewrite spiral_overflow by lia. split; [by right|].
  split; [by intros (g & s' & ?) | lia].
Qed.

(** X5. spiral uses N only through N // 2, apart from the count it
    stores: for even N, spiral(N + 1) returns the points and labels of
    spiral(N) under the count N + 1, and raises when spiral(N) raises. *)
Theorem spiral_odd_as_even `{L : Libm} (n : Z) (s : rng) :
  Z.even n = true →
  fst (spiral (n + 1) s)
  = match fst (spiral n s) with
    | Ok g => Ok (mkGraph (n + 1) (X g) (y g))
    | Raise e => Raise e
    end.
Proof.
  intros He.
  assert ((n + 1) / 2 = n / 2) as Hhalf.
  { pose proof (Zmod_odd n) as Hodd.
    rewrite <- Z.negb_even, He in Hodd. cbn in Hodd.
    pose proof (Z.div_mod n 2 ltac:(lia)) as Hdm.
    symmetry. apply (Z.div_unique (n + 1) 2 (n / 2) 1); lia. }
  destruct (decide (n < 2)) as [Hn|Hn].
  { assert (n ≠ 1) by (intros ->; discriminate He).
    by rewrite !spiral_small by lia. }
  destruct (decide (n / 2 + 4 < DBL_OVERFLOW)) as [Hb|Hb].
  - rewrite (spiral_run (n + 1)), (spiral_run n) by lia. cbn [fst X y].
    by rewrite Hhalf.
  - by rewrite (spiral_overflow (n + 1)), (spiral_overflow n) by lia.
Qed.

Lemma spiral_odd_as_even_witness :
  fst (spiral (L := ref_libm) (10 + 1) rng0)
  = match fst (spiral (L := ref_libm) 10 rng0) with
    | Ok g => Ok (mkGraph (10 + 1) (X g) (y g))
    | Raise e => Raise e
    end.
Proof. apply (spiral_odd_as_even (L := ref_libm) 10 rng0). reflexivity. Defined.

Lemma length_filter_replicate (v w : Z) (k : nat) :
  length (filter (λ l, l = v) (replicate k w)) = if decide (w = v) then k else 0%nat.
Proof.
  induction k as [|k IH]; [by case_decide|].
  cbn [replicate]. rewrite filter_cons.
  repeat case_decide; cbn [length]; try lia; congruence.
Qed.

(** X6. Within the float range spiral labels every point 0 or 1, with as
    many zeros as ones, N // 2 of each; and its dataset keeps the
    invariant count == len(points) == len(labels) exactly when N is
    even. *)
Theorem spiral_labels_balanced `{L : Libm} (n : Z) (s : rng) :
  2 ≤ n → n / 2 + 4 < DBL_OVERFLOW →
  ∃ g, spiral n s = (Ok g, s)
    ∧ Forall (λ l, l = 0 ∨ l = 1) (y g)
    ∧ length (filter (λ l, l = 0) (y g)) = Z.to_nat (n / 2)
    ∧ length (filter (λ l, l = 1) (y g)) = Z.to_nat (n / 2)
    ∧ (well_formed n g ↔ Z.even n = true).
Proof.
  intros Hn Hb. eexists. split; [by apply spiral_run|].
  unfold well_formed. cbn [N X y].
  assert (1 ≤ n / 2) as Hh by (apply Z.div_le_lower_bound; lia).
  pose proof (Z.div_mod n 2 ltac:(lia)) as Hdm.
  pose proof (Zmod_odd n) as Hodd. rewrite <- Z.negb_even in Hodd.
  assert (Forall (λ l, l = 0 ∨ l = 1)
            (replicate (Z.to_nat (n / 2)) 0 ++ replicate (Z.to_nat (n / 2)) 1))
    as Hlabels.
  { apply Forall_app. split; apply Forall_replicate; auto. }
  rewrite !filter_app, !length_app, !length_filter_replicate.
  rewrite !length_fmap, !length_range, !length_replicate.
  replace (Z.to_nat (5 + n / 2 - 5)) with (Z.to_nat (n / 2)) by (f_equal; lia).
  split; [done|]. split; [repeat case_decide; lia|].
  split; [repeat case_decide; lia|]. split.
  - intros (_ & Hlen & _). destruct (Z.even n); [done|]. cbn in Hodd. lia.
  - intros He. rewrite He in Hodd. cbn in Hodd. repeat split; [lia..|done].
Qed.

Lemma spiral_labels_balanced_witness :
  ∃ g, spiral (L := ref_libm) 7 rng0 = (Ok g, rng0)
    ∧ length (filter (λ l, l = 1) (y g)) = 3%nat.
Proof.
  destruct (spiral_labels_balanced (L := ref_libm) 7 rng0)
    as (g & Hrun & _ & _ & Hones & _).
  - lia.
  - by vm_compute.
  - exists g. split; [exact Hrun | exact Hones].
Defined.

(** X7. Looking a generator up in the registry and calling it with
    N >= 0 returns a dataset with count N, N points, N labels and labels
    in 0, 1, for every registered name; for Spiral this needs N even and
    N // 2 + 4 below the float conversion threshold. *)
Theorem registered_generators_well_formed `{L : Libm}
    (name : string) (gen : Z → M Graph) (n : Z) (s : rng) :
  datasets !! name = Some gen →
  0 ≤ n →
  (name = "Spiral"%string → Z.even n = true ∧ n / 2 + 4 < DBL_OVERFLOW) →
  ∃ g s', gen n s = (Ok g, s') ∧ well_formed n g.
Proof.
  intros Hlook Hn Hspiral. unfold datasets in Hlook.
  apply elem_of_list_to_map_2 in Hlook.
  repeat (apply elem_of_cons in Hlook as [[= -> ->]|Hlook]);
    [rewrite simple_run | rewrite diag_run | rewrite split_run
    | rewrite xor_run | rewrite circle_run | | by apply elem_of_nil in Hlook];
    try (eexists _, _; split; [reflexivity | by apply labelled_well_formed]).
  destruct Hspiral as [He Hb]; [done|].
  destruct (decide (n < 2)) as [Hsmall|Hlarge].
  - assert (n = 0) as ->.
    { destruct (decide (n = 1)) as [->|]; [discriminate He | lia]. }
    rewrite spiral_small by lia. eexists _, _. split; [reflexivity|].
    unfold well_formed. cbn. repeat split; [lia..|constructor].
  - rewrite spiral_run by lia. eexists _, _. split; [reflexivity|].
    unfold well_formed. cbn [N X y].
    pose proof (Z.div_mod n 2 ltac:(lia)) as Hdm.
    pose proof (Zmod_odd n) as Hodd.
    rewrite <- Z.negb_even, He in Hodd. cbn in Hodd.
    rewrite !length_app, !length_fmap, !length_range, !length_replicate.
    replace (Z.to_nat (5 + n / 2 - 5)) with (Z.to_nat (n / 2)) by (f_equal; lia).
    repeat split; [lia..|].
    apply Forall_app. split; apply Forall_replicate; auto.
Qed.

Lemma registered_generators_well_formed_witness :
  ∃ g s', spiral (L := ref_libm) 4 rng0 = (Ok g, s') ∧ well_formed 4 g.
Proof.
  apply (registered_generators_well_formed (L := ref_libm) "Spiral" spiral 4 rng0).
  - reflexivity.
  - lia.
  - intros _. split; [reflexivity | by vm_compute].
Defined.

Lemma pts_from_in_unit t c n :
  (∀ k : nat, (c ≤ k)%nat → in_unit (t k) = true) →
  Forall (λ p : point, in_unit p.1 = true ∧ in_unit p.2 = true) (pts_from t c n).
Proof.
  intros Hunit. apply Forall_lookup. intros i p Hp.
  assert (i < n)%nat as Hi.
  { apply lookup_lt_Some in Hp. by rewrite length_pts_from in Hp. }
  rewrite lookup_pts_from in Hp by done. injection Hp as <-.
  cbn [fst snd]. split; apply Hunit; lia.
Qed.

(** X8. When the draws that follow the cursor lie in [0, 1), every point
    of the dataset simple, diag, split, xor or circle returns lies in the
    unit square [0, 1) x [0, 1), for any N. *)
Theorem generators_points_in_unit `{L : Libm} (n : Z) (s : rng) :
  (∀ k : nat, (cursor s ≤ k)%nat → in_unit (tape s k) = true) →
  ∀ gen, gen ∈ [simple; diag; split; xor; circle] →
  ∃ g s', gen n s = (Ok g, s')
    ∧ Forall (λ p : point, in_unit p.1 = true ∧ in_unit p.2 = true) (X g).
Proof.
  intros Hunit gen Hgen.
  repeat (apply elem_of_cons in Hgen as [->|Hgen]);
    [rewrite simple_run | rewrite diag_run | rewrite split_run
    | rewrite xor_run | rewrite circle_run | by apply elem_of_nil in Hgen];
    (eexists _, _; split; [reflexivity | by apply pts_from_in_unit]).
Qed.

Lemma generators_points_in_unit_witness :
  ∃ g s', split 2 rng0 = (Ok g, s')
    ∧ Forall (λ p : point, in_unit p.1 = true ∧ in_unit p.2 = true) (X g).
Proof.
  apply (generators_points_in_unit (L := ref_libm) 2 rng0).
  - intros k _. apply rng0_in_unit.
  - do 2 apply list_elem_of_further. apply list_elem_of_here.
Defined.
